(** * An in-process cooperative pipe: src/mordor/common/streams/pipe.cpp

    Shallow embedding of [PipeStream] and [pipeStream].  The two endpoints
    of a pair live in one [World]; the shared [boost::mutex] is modelled by
    running every critical section (the code between taking and dropping
    [m_mutex]) as one call of a state/error monad on the world.  A call
    that reaches [Scheduler::getThis()->yieldTo()] returns [Yielded]; the
    retry after resumption is a further call (the recursion of [read], the
    [while (true)] of [write] and [flush]).  Calls into the scheduler are
    recorded in the world's [trace], together with the resets of the
    pending-task slots, in the order the code performs them. *)

From Stdlib Require Import List Bool Arith NArith ZArith Lia Relations.
Import ListNotations.

(** ** Close directions *)

(** Modelled from the spec: the [CloseType] bitmask of stream.h (not under
    src/): [NONE], [READ], [WRITE] and [BOTH = READ | WRITE]. *)
Definition CloseType := Z.
Definition NONE : CloseType := 0%Z.
Definition READ : CloseType := 1%Z.
Definition WRITE : CloseType := 2%Z.
Definition BOTH : CloseType := 3%Z.

(** [c & f] used as a condition. *)
Definition has (c f : CloseType) : bool := negb (Z.eqb (Z.land c f) 0).

(** ** Endpoints and the world *)

(** [result.first] and [result.second] of [pipeStream]. *)
Inductive side := SA | SB.

Definition other (s : side) : side :=
  match s with SA => SB | SB => SA end.

Definition byte := Byte.byte.

(** The fields of [PipeStream].  [m_otherStream] is the other side of the
    world; [alive] says whether the object still exists, so that
    [m_otherStream.expired()] on [E] is [negb (alive (other E))].  Sizes are
    [size_t] values; they are kept unbounded ([N]): the only addition,
    [readAvailable() + len] in [write], adds two values at most
    [m_bufferSize] and could only wrap with 2^63 bytes buffered. *)
Record PipeStream := mkPipeStream {
  alive : bool;
  m_readBuffer : list byte;
  m_bufferSize : N;
  m_closed : CloseType;
  m_otherClosed : CloseType;
  m_pendingWriterScheduler : nat;
  m_pendingReaderScheduler : nat;
  m_pendingWriter : option nat;
  m_pendingReader : option nat
}.

Definition set_alive (p : PipeStream) (a : bool) : PipeStream :=
  mkPipeStream a (m_readBuffer p) (m_bufferSize p) (m_closed p)
    (m_otherClosed p) (m_pendingWriterScheduler p) (m_pendingReaderScheduler p)
    (m_pendingWriter p) (m_pendingReader p).

Definition set_readBuffer (p : PipeStream) (b : list byte) : PipeStream :=
  mkPipeStream (alive p) b (m_bufferSize p) (m_closed p)
    (m_otherClosed p) (m_pendingWriterScheduler p) (m_pendingReaderScheduler p)
    (m_pendingWriter p) (m_pendingReader p).

Definition set_closed (p : PipeStream) (c : CloseType) : PipeStream :=
  mkPipeStream (alive p) (m_readBuffer p) (m_bufferSize p) c
    (m_otherClosed p) (m_pendingWriterScheduler p) (m_pendingReaderScheduler p)
    (m_pendingWriter p) (m_pendingReader p).

Definition set_otherClosed (p : PipeStream) (c : CloseType) : PipeStream :=
  mkPipeStream (alive p) (m_readBuffer p) (m_bufferSize p) (m_closed p)
    c (m_pendingWriterScheduler p) (m_pendingReaderScheduler p)
    (m_pendingWriter p) (m_pendingReader p).

(** [m_pendingWriter = f; m_pendingWriterScheduler = s;] *)
Definition set_pendingWriter (p : PipeStream) (f : option nat) (s : nat)
  : PipeStream :=
  mkPipeStream (alive p) (m_readBuffer p) (m_bufferSize p) (m_closed p)
    (m_otherClosed p) s (m_pendingReaderScheduler p)
    f (m_pendingReader p).

(** [m_pendingReader = f; m_pendingReaderScheduler = s;] *)
Definition set_pendingReader (p : PipeStream) (f : option nat) (s : nat)
  : PipeStream :=
  mkPipeStream (alive p) (m_readBuffer p) (m_bufferSize p) (m_closed p)
    (m_otherClosed p) (m_pendingWriterScheduler p) s
    (m_pendingWriter p) f.

(** The two pending-task slots of an endpoint. *)
Inductive slot := SlotReader | SlotWriter.

(** [ESchedule s f]: [s->schedule(f)]; [EReset E sl]: the slot [sl] of
    endpoint [E] is reset. *)
Inductive event :=
| ESchedule (sched fiber : nat)
| EReset (who : side) (sl : slot).

Record World := mkWorld {
  epA : PipeStream;
  epB : PipeStream;
  trace : list event
}.

Definition ep (w : World) (s : side) : PipeStream :=
  match s with SA => epA w | SB => epB w end.

Definition set_ep (w : World) (s : side) (p : PipeStream) : World :=
  match s with
  | SA => mkWorld p (epB w) (trace w)
  | SB => mkWorld (epA w) p (trace w)
  end.

(** ** A state and error monad for the critical sections *)

(** [BadHandleException] is the spec's HandleMisuse, [BrokenPipeException]
    its PeerUnavailable; a failed [ASSERT] aborts (ProtocolViolation). *)
Inductive exn := BadHandleException | BrokenPipeException.

Inductive res (A : Type) :=
| Val (a : A)
| Throw (e : exn)
| AssertFailed.
Arguments Val {A} a.
Arguments Throw {A} e.
Arguments AssertFailed {A}.

Definition M (A : Type) := World -> res A * World.

Definition ret {A} (a : A) : M A := fun w => (Val a, w).

Definition bind {A B} (m : M A) (k : A -> M B) : M B :=
  fun w =>
    match m w with
    | (Val a, w') => k a w'
    | (Throw e, w') => (Throw e, w')
    | (AssertFailed, w') => (AssertFailed, w')
    end.

Notation "'let!' x ':=' m 'in' k" := (bind m (fun x => k))
  (at level 200, x name, m at level 100, k at level 200).
Notation "m ;; k" := (bind m (fun _ => k))
  (at level 100, k at level 200, right associativity).

Definition throw {A} (e : exn) : M A := fun w => (Throw e, w).

Definition ASSERT (b : bool) : M unit :=
  fun w => if b then (Val tt, w) else (AssertFailed, w).

Definition get (s : side) : M PipeStream := fun w => (Val (ep w s), w).

Definition put (s : side) (p : PipeStream) : M unit :=
  fun w => (Val tt, set_ep w s p).

(** [m_otherStream.expired()] of the endpoint on the other side of [s]. *)
Definition expired (s : side) : M bool :=
  fun w => (Val (negb (alive (ep w s))), w).

Definition log (e : event) : M unit :=
  fun w => (Val tt, mkWorld (epA w) (epB w) (trace w ++ [e])).

(** [sched->schedule(fiber)] *)
Definition schedule (sched fiber : nat) : M unit := log (ESchedule sched fiber).

(** [m_pendingReader.reset()] on endpoint [s]. *)
Definition reset_pendingReader (s : side) : M unit :=
  let! p := get s in
  put s (set_pendingReader p None (m_pendingReaderScheduler p)) ;;
  log (EReset s SlotReader).

(** [m_pendingWriter.reset()] on endpoint [s]. *)
Definition reset_pendingWriter (s : side) : M unit :=
  let! p := get s in
  put s (set_pendingWriter p None (m_pendingWriterScheduler p)) ;;
  log (EReset s SlotWriter).

(** How a critical section ends: with the operation's result, or by
    registering the caller and yielding. *)
Inductive attempt (A : Type) := Finished (a : A) | Yielded.
Arguments Finished {A} a.
Arguments Yielded {A}.

(** ** The operations *)

(** [pipeStream(bufferSize)]: [~0u] is the "unspecified" value. *)
Definition unspecified : N := 4294967295%N.

(** [PipeStream(bufferSize)]; the scheduler pointers are left
    uninitialised by the constructor and are given the value 0 here. *)
Definition newPipeStream (bufferSize : N) : PipeStream :=
  mkPipeStream true [] bufferSize NONE NONE 0 0 None None.

Definition pipeStream (bufferSize : N) : World :=
  let bufferSize := if N.eqb bufferSize unspecified then 65536%N else bufferSize in
  mkWorld (newPipeStream bufferSize) (newPipeStream bufferSize) [].

(** [PipeStream::~PipeStream] on endpoint [E].  When the destructor runs the
    last [shared_ptr] to [E] is gone, so the peer's [m_otherStream] has
    already expired. *)
Definition destroy (E : side) : M unit :=
  let! me := get E in
  put E (set_alive me false) ;;
  let! gone := expired (other E) in
  (if gone then ret tt
   else
     let! o := get (other E) in
     ASSERT (match m_pendingReader o with None => true | Some _ => false end) ;;
     ASSERT (match m_pendingWriter o with None => true | Some _ => false end)) ;;
  let! me := get E in
  (match m_pendingReader me with
   | Some f => schedule (m_pendingReaderScheduler me) f ;; reset_pendingReader E
   | None => ret tt
   end) ;;
  let! me := get E in
  match m_pendingWriter me with
  | Some f => schedule (m_pendingWriterScheduler me) f ;; reset_pendingWriter E
  | None => ret tt
  end.

(** [PipeStream::close(type)] on endpoint [E]. *)
Definition close (E : side) (type : CloseType) : M unit :=
  let! me := get E in
  put E (set_closed me (Z.lor (m_closed me) type)) ;;
  let! gone := expired (other E) in
  (if gone then ret tt
   else
     let! me := get E in
     let! o := get (other E) in
     put (other E) (set_otherClosed o (m_closed me))) ;;
  let! me := get E in
  (match m_pendingReader me with
   | Some f =>
       if has (m_closed me) WRITE
       then schedule (m_pendingReaderScheduler me) f ;; reset_pendingReader E
       else ret tt
   | None => ret tt
   end) ;;
  let! me := get E in
  match m_pendingWriter me with
  | Some f =>
      if has (m_closed me) READ
      then schedule (m_pendingWriterScheduler me) f ;; reset_pendingWriter E
      else ret tt
  | None => ret tt
  end.

(** One critical section of [PipeStream::read(b, len)] on endpoint [E], run
    by fiber [fiber] of scheduler [sched]: [b] is the destination buffer,
    returned with the copied bytes appended.  After [Yielded] the source
    recurses, i.e. runs [read] again. *)
Definition read (E : side) (fiber sched : nat) (b : list byte) (len : N)
  : M (attempt (N * list byte)) :=
  let! me := get E in
  if has (m_closed me) READ then throw BadHandleException
  else
  let! gone := expired (other E) in
  if gone && negb (has (m_otherClosed me) WRITE) then throw BrokenPipeException
  else
  let avail := N.of_nat (length (m_readBuffer me)) in
  if (0 <? avail)%N then
    let todo := N.min len avail in
    let b := b ++ firstn (N.to_nat todo) (m_readBuffer me) in
    put E (set_readBuffer me (skipn (N.to_nat todo) (m_readBuffer me))) ;;
    let! me := get E in
    (match m_pendingWriter me with
     | Some f => schedule (m_pendingWriterScheduler me) f ;; reset_pendingWriter E
     | None => ret tt
     end) ;;
    ret (Finished (todo, b))
  else
  if has (m_otherClosed me) WRITE then ret (Finished (0%N, b))
  else
  let! o := get (other E) in
  ASSERT (match m_pendingReader o with None => true | Some _ => false end) ;;
  put (other E) (set_pendingReader o (Some fiber) sched) ;;
  ret Yielded.

(** One iteration of the [while (true)] loop of [PipeStream::write(b, len)]
    on endpoint [E], with [len] already clamped.  [copyIn(b, len)] appends
    the first [len] bytes of [b]. *)
Definition write_iter (E : side) (fiber sched : nat) (b : list byte) (len : N)
  : M (attempt N) :=
  let! me := get E in
  if has (m_closed me) WRITE then throw BadHandleException
  else
  let! gone := expired (other E) in
  if gone then throw BrokenPipeException
  else
  let! o := get (other E) in
  if has (m_closed o) READ then throw BrokenPipeException
  else
  if (N.of_nat (length (m_readBuffer o)) + len <=? m_bufferSize me)%N then
    put (other E) (set_readBuffer o (m_readBuffer o ++ firstn (N.to_nat len) b)) ;;
    let! me := get E in
    (match m_pendingReader me with
     | Some f => schedule (m_pendingReaderScheduler me) f ;; reset_pendingReader E
     | None => ret tt
     end) ;;
    ret (Finished len)
  else
  ASSERT (match m_pendingWriter o with None => true | Some _ => false end) ;;
  put (other E) (set_pendingWriter o (Some fiber) sched) ;;
  ret Yielded.

(** [len] is clamped to [m_bufferSize], then the first loop iteration runs;
    after [Yielded] the loop runs [write_iter] again with the clamped
    length. *)
Definition clamp (me : PipeStream) (len : N) : N :=
  if (m_bufferSize me <? len)%N then m_bufferSize me else len.

Definition write (E : side) (fiber sched : nat) (b : list byte) (len : N)
  : M (attempt N) :=
  let! me := get E in
  write_iter E fiber sched b (clamp me len).

(** One iteration of the loop of [PipeStream::flush()] on endpoint [E]. *)
Definition flush_iter (E : side) (fiber sched : nat) : M (attempt unit) :=
  let! gone := expired (other E) in
  if gone then throw BrokenPipeException
  else
  let! o := get (other E) in
  if has (m_closed o) READ then throw BrokenPipeException
  else
  if (N.of_nat (length (m_readBuffer o)) =? 0)%N then ret (Finished tt)
  else
  ASSERT (match m_pendingWriter o with None => true | Some _ => false end) ;;
  put (other E) (set_pendingWriter o (Some fiber) sched) ;;
  ret Yielded.

(** ** Resumptions *)

(** The events [t] an operation appended to the trace of [w] are pairs: the
    task held by a slot of [w] is scheduled, then that slot is reset. *)
Fixpoint resumed_from (w : World) (t : list event) : Prop :=
  match t with
  | [] => True
  | ESchedule s f :: EReset X SlotReader :: t' =>
      m_pendingReader (ep w X) = Some f /\
      m_pendingReaderScheduler (ep w X) = s /\ resumed_from w t'
  | ESchedule s f :: EReset X SlotWriter :: t' =>
      m_pendingWriter (ep w X) = Some f /\
      m_pendingWriterScheduler (ep w X) = s /\ resumed_from w t'
  | _ => False
  end.

(** The slot an event resets is empty in [w]. *)
Definition slot_free (w : World) (e : event) : Prop :=
  match e with
  | EReset X SlotReader => m_pendingReader (ep w X) = None
  | EReset X SlotWriter => m_pendingWriter (ep w X) = None
  | ESchedule _ _ => True
  end.

(** Every task critical section [m] run on [w] resumes is scheduled and
    then has its slot reset, and the slot is still empty when the section
    ends, i.e. when the lock is released. *)
Definition resumes_then_clears {A} (m : M A) (w : World) : Prop :=
  exists t, trace (snd (m w)) = trace w ++ t /\ resumed_from w t /\
            Forall (slot_free (snd (m w))) t.

(** ** Runs of the pipe *)

(** One critical section of any operation on either endpoint.  A write
    iteration may run with any length (the clamped one of [write]); an
    endpoint is destroyed at most once. *)
Inductive step : World -> World -> Prop :=
| step_read E fiber sched b len w :
    step w (snd (read E fiber sched b len w))
| step_write E fiber sched b len w :
    step w (snd (write_iter E fiber sched b len w))
| step_flush E fiber sched w :
    step w (snd (flush_iter E fiber sched w))
| step_close E type w :
    step w (snd (close E type w))
| step_destroy E w :
    alive (ep w E) = true -> step w (snd (destroy E w)).

(** The worlds a pair created by [pipeStream] can reach. *)
Inductive reachable : World -> Prop :=
| reachable_pipeStream bufferSize : reachable (pipeStream bufferSize)
| reachable_step w w' : reachable w -> step w w' -> reachable w'.

(** ** Facts about the definitions *)

(** Run one critical section symbolically: unfold the monad and split on
    every test the code makes. *)
Ltac run_op :=
  cbv delta [read write write_iter clamp flush_iter close destroy bind ret get
    put expired throw ASSERT log schedule reset_pendingReader
    reset_pendingWriter]; simpl;
  repeat (match goal with
          | |- context [match ?x with _ => _ end] =>
              lazymatch type of x with
              | prod _ _ => fail
              | _ => destruct x eqn:?
              end
          end; simpl).

(** Close the easy goals [run_op] leaves: split conjunctions, introduce
    premises and discard the branches the premises rule out. *)
Ltac finish_op :=
  repeat match goal with
         | H : (_ <=? _)%N = true |- _ => apply N.leb_le in H
         | H : (_ <=? _)%N = false |- _ => apply N.leb_gt in H
         | H : (_ <? _)%N = true |- _ => apply N.ltb_lt in H
         | H : (_ <? _)%N = false |- _ => apply N.ltb_ge in H
         | H : negb _ = true |- _ => apply negb_true_iff in H
         | H : negb _ = false |- _ => apply negb_false_iff in H
         | H : (_ && _)%bool = true |- _ => apply andb_true_iff in H; destruct H
         | H : context [match ?x with Some _ => _ | None => _ end] |- _ =>
             destruct x; simpl in H
         end;
  repeat (first [split | match goal with |- forall _, _ => intro end]);
  try discriminate; try congruence;
  try (subst; simpl in *; first [lia | congruence]).

(** No operation changes an endpoint's [m_bufferSize]. *)
Lemma read_bufferSize E f s b len w X :
  m_bufferSize (ep (snd (read E f s b len w)) X) = m_bufferSize (ep w X).
Proof. destruct w as [[] [] t]; destruct E, X; run_op; reflexivity. Qed.

Lemma write_iter_bufferSize E f s b len w X :
  m_bufferSize (ep (snd (write_iter E f s b len w)) X) = m_bufferSize (ep w X).
Proof. destruct w as [[] [] t]; destruct E, X; run_op; reflexivity. Qed.

Lemma flush_iter_bufferSize E f s w X :
  m_bufferSize (ep (snd (flush_iter E f s w)) X) = m_bufferSize (ep w X).
Proof. destruct w as [[] [] t]; destruct E, X; run_op; reflexivity. Qed.

Lemma close_bufferSize E c w X :
  m_bufferSize (ep (snd (close E c w)) X) = m_bufferSize (ep w X).
Proof. destruct w as [[] [] t]; destruct E, X; run_op; reflexivity. Qed.

Lemma destroy_bufferSize E w X :
  m_bufferSize (ep (snd (destroy E w)) X) = m_bufferSize (ep w X).
Proof. destruct w as [[] [] t]; destruct E, X; run_op; reflexivity. Qed.

Lemma step_bufferSize w w' X :
  step w w' -> m_bufferSize (ep w' X) = m_bufferSize (ep w X).
Proof.
  destruct 1; auto using read_bufferSize, write_iter_bufferSize,
    flush_iter_bufferSize, close_bufferSize, destroy_bufferSize.
Qed.

(** Both endpoints of a pair keep the capacity given to [pipeStream]. *)
Lemma reachable_same_bufferSize w E :
  reachable w -> m_bufferSize (ep w (other E)) = m_bufferSize (ep w E).
Proof.
  induction 1 as [bufferSize | w w' _ IH Hs].
  - destruct E; reflexivity.
  - rewrite (step_bufferSize _ _ E Hs), (step_bufferSize _ _ (other E) Hs).
    exact IH.
Qed.

(** A direction an endpoint has closed stays closed. *)
Lemma has_lor_l c t f : has c f = true -> has (Z.lor c t) f = true.
Proof.
  unfold has; rewrite Z.land_lor_distr_l.
  intros H; apply negb_true_iff in H; apply negb_true_iff.
  apply Z.eqb_neq in H; apply Z.eqb_neq.
  intros H0; apply Z.lor_eq_0_iff in H0; tauto.
Qed.

Ltac closed_mono :=
  match goal with w : World |- _ => destruct w as [[] [] ?] end;
  match goal with E : side, X : side |- _ => destruct E, X end;
  simpl; intros Hc; run_op; auto using has_lor_l; congruence.

Lemma read_closed_mono E f s b len w X :
  has (m_closed (ep w X)) READ = true ->
  has (m_closed (ep (snd (read E f s b len w)) X)) READ = true.
Proof. closed_mono. Qed.

Lemma write_iter_closed_mono E f s b len w X :
  has (m_closed (ep w X)) READ = true ->
  has (m_closed (ep (snd (write_iter E f s b len w)) X)) READ = true.
Proof. closed_mono. Qed.

Lemma flush_iter_closed_mono E f s w X :
  has (m_closed (ep w X)) READ = true ->
  has (m_closed (ep (snd (flush_iter E f s w)) X)) READ = true.
Proof. closed_mono. Qed.

Lemma close_closed_mono E c w X :
  has (m_closed (ep w X)) READ = true ->
  has (m_closed (ep (snd (close E c w)) X)) READ = true.
Proof. closed_mono. Qed.

Lemma destroy_closed_mono E w X :
  has (m_closed (ep w X)) READ = true ->
  has (m_closed (ep (snd (destroy E w)) X)) READ = true.
Proof. closed_mono. Qed.

Lemma steps_closed_mono w w' X :
  clos_refl_trans _ step w w' ->
  has (m_closed (ep w X)) READ = true ->
  has (m_closed (ep w' X)) READ = true.
Proof.
  induction 1 as [w w' Hs | w | w1 w2 w3 _ IH1 _ IH2]; auto.
  destruct Hs; auto using read_closed_mono, write_iter_closed_mono,
    flush_iter_closed_mono, close_closed_mono, destroy_closed_mono.
Qed.

Lemma has_lor_r c t f : has t f = true -> has (Z.lor c t) f = true.
Proof. rewrite Z.lor_comm; apply has_lor_l. Qed.

Lemma close_READ_has E w : has (m_closed (ep (snd (close E READ w)) E)) READ = true.
Proof.
  destruct w as [[] [] t]; destruct E; run_op; apply has_lor_r; reflexivity.
Qed.

(** ** C1: round trip *)

(** C1 (as stated, for N = 0): on a fresh pair, writing the empty sequence
    returns 0, but the following read of 0 bytes on the peer does not
    return: with nothing buffered and no Write close it registers the
    caller and yields. *)
Lemma C1_empty_roundtrip_blocks :
  let w0 := pipeStream unspecified in
  fst (write SA 1 1 [] 0 w0) = Val (Finished 0%N) /\
  fst (read SB 2 2 [] 0 (snd (write SA 1 1 [] 0 w0))) = Val Yielded.
Proof. vm_compute. split; reflexivity. Qed.

(** C1 (amended): for every non-empty byte sequence of length N with N at
    most the capacity, writing it on one endpoint of a fresh pair returns N
    and a read of N bytes on the peer then returns N and delivers exactly
    those bytes, in order. *)
Theorem C1_roundtrip (E : side) (bufferSize : N) (bs : list byte)
  (fw sw fr sr : nat) :
  (0 < N.of_nat (length bs))%N ->
  (N.of_nat (length bs) <= m_bufferSize (ep (pipeStream bufferSize) E))%N ->
  exists w1 w2,
    write E fw sw bs (N.of_nat (length bs)) (pipeStream bufferSize)
      = (Val (Finished (N.of_nat (length bs))), w1) /\
    read (other E) fr sr [] (N.of_nat (length bs)) w1
      = (Val (Finished (N.of_nat (length bs), bs)), w2).
Proof.
  intros Hpos Hcap.
  set (cap := if N.eqb bufferSize unspecified then 65536%N else bufferSize).
  assert (Hc : m_bufferSize (ep (pipeStream bufferSize) E) = cap)
    by (destruct E; reflexivity).
  rewrite Hc in Hcap.
  set (n := N.of_nat (length bs)) in *.
  assert (Hclamp : (cap <? n)%N = false) by (apply N.ltb_ge; lia).
  assert (Hav : (0 <? n)%N = true) by (apply N.ltb_lt; lia).
  assert (Hfirst : firstn (N.to_nat n) bs = bs)
    by (unfold n; rewrite Nnat.Nat2N.id; apply firstn_all).
  assert (Hskip : skipn (N.to_nat n) bs = [])
    by (unfold n; rewrite Nnat.Nat2N.id; apply skipn_all).
  assert (Hw : pipeStream bufferSize
               = mkWorld (newPipeStream cap) (newPipeStream cap) [])
    by reflexivity.
  assert (Hfit : (n <=? cap)%N = true) by (apply N.leb_le; lia).
  rewrite Hw; clear Hw Hc.
  destruct E; cbv delta [write write_iter clamp read bind ret get put expired
    throw ASSERT log schedule reset_pendingReader reset_pendingWriter
    newPipeStream]; simpl;
    rewrite Hclamp, Hfit; simpl; rewrite Hfirst; simpl.
  all: eexists; eexists; split; [reflexivity|]; simpl; fold n.
  all: rewrite Hav, N.min_id, Hfirst, Hskip; reflexivity.
Qed.

(** ** C2: capacity *)

(** C2: in every world a pair can reach, a write iteration on [E] that
    completes leaves the peer's inbound buffer with at most the peer's
    capacity; an iteration whose copy would exceed the capacity leaves the
    peer's buffer untouched, and when none of the error checks fires and no
    writer is registered yet it registers the caller in the peer's
    [m_pendingWriter] slot and yields. *)
Theorem C2_capacity (w : World) (E : side) (fiber sched : nat)
  (b : list byte) (len : N) :
  reachable w ->
  (forall n, fst (write_iter E fiber sched b len w) = Val (Finished n) ->
     (N.of_nat (length (m_readBuffer
        (ep (snd (write_iter E fiber sched b len w)) (other E))))
      <= m_bufferSize (ep (snd (write_iter E fiber sched b len w)) (other E)))%N)
  /\
  ((m_bufferSize (ep w E) < N.of_nat (length (m_readBuffer (ep w (other E)))) + len)%N ->
     m_readBuffer (ep (snd (write_iter E fiber sched b len w)) (other E))
       = m_readBuffer (ep w (other E)) /\
     (has (m_closed (ep w E)) WRITE = false ->
      alive (ep w (other E)) = true ->
      has (m_closed (ep w (other E))) READ = false ->
      m_pendingWriter (ep w (other E)) = None ->
      fst (write_iter E fiber sched b len w) = Val Yielded /\
      m_pendingWriter (ep (snd (write_iter E fiber sched b len w)) (other E))
        = Some fiber)).
Proof.
  intros Hr.
  pose proof (reachable_same_bufferSize w E Hr) as Hsz.
  destruct w as [[] [] t]; destruct E; simpl in Hsz |- *; subst; run_op;
    finish_op.
  all: try (rewrite length_app;
            pose proof (firstn_le_length (N.to_nat len) b); lia).
  all: try lia.
  all: subst; simpl in *; congruence.
Qed.

(** ** C3: clean end of stream *)

(** C3 (as stated): an endpoint that closed its own Read direction, with an
    empty inbound buffer and a peer that closed Write, does not get 0 from
    [read]: the [m_closed & READ] test comes first and throws
    [BadHandleException]. *)
Lemma C3_own_read_closed_throws :
  let w := snd (close SB READ (snd (close SA WRITE (pipeStream unspecified)))) in
  m_readBuffer (ep w SB) = [] /\
  has (m_otherClosed (ep w SB)) WRITE = true /\
  fst (read SB 1 1 [] 5 w) = Throw BadHandleException.
Proof. vm_compute. repeat split. Qed.

(** C3 (amended): a read on an endpoint that has not closed its own Read
    direction, whose inbound buffer is empty and whose recorded peer close
    state includes Write, returns 0 without error and without changing
    anything; so after the peer writes 5 bytes and closes Write, a read of
    5 bytes returns them and a further read returns 0. *)
Theorem C3_clean_eof (w : World) (E : side) (fiber sched : nat)
  (b : list byte) (len : N) (bs : list byte) :
  (has (m_closed (ep w E)) READ = false ->
   m_readBuffer (ep w E) = [] ->
   has (m_otherClosed (ep w E)) WRITE = true ->
   read E fiber sched b len w = (Val (Finished (0%N, b)), w)) /\
  (length bs = 5 ->
   let w1 := snd (write (other E) 1 1 bs 5 (pipeStream unspecified)) in
   let w2 := snd (close (other E) WRITE w1) in
   fst (read E 2 2 [] 5 w2) = Val (Finished (5%N, bs)) /\
   fst (read E 2 2 [] 5 (snd (read E 2 2 [] 5 w2)))
     = Val (Finished (0%N, []))).
Proof.
  split.
  - intros Hr Hb Hw.
    destruct w as [pa pb t]; destruct E; simpl in *;
      cbv delta [read bind ret get put expired throw]; simpl;
      rewrite Hr, Hb, Hw; simpl; rewrite andb_false_r; reflexivity.
  - intros Hl.
    destruct bs as [|b1 [|b2 [|b3 [|b4 [|b5 [|]]]]]]; try discriminate.
    destruct E; vm_compute; split; reflexivity.
Qed.

(** ** C5: reads and writes once the peer is gone *)

(** C5 (as stated): A writes 3 bytes and is destroyed without closing
    Write; B's inbound buffer still holds the 3 bytes, yet the read on B
    throws [BrokenPipeException] instead of returning them. *)
Lemma C5_buffered_read_after_peer_gone_throws :
  let w1 := snd (write SA 1 1 [Byte.x01; Byte.x02; Byte.x03] 3
                    (pipeStream unspecified)) in
  let w2 := snd (destroy SA w1) in
  m_readBuffer (ep w2 SB) = [Byte.x01; Byte.x02; Byte.x03] /\
  fst (read SB 2 2 [] 3 w2) = Throw BrokenPipeException.
Proof. vm_compute. split; reflexivity. Qed.

(** C5 (amended): once the peer of [E] is destroyed, a write on [E] that
    has not closed its own Write direction throws [BrokenPipeException]; a
    read on [E] that has not closed its own Read direction throws
    [BrokenPipeException] whenever the peer had not closed Write, whatever
    [E]'s inbound buffer holds; if the peer had closed Write, the read
    returns the buffered bytes (up to [len]), or 0 once the buffer is
    empty. *)
Theorem C5_peer_gone (w : World) (E : side) (fiber sched : nat)
  (b : list byte) (len : N) :
  alive (ep w (other E)) = false ->
  (has (m_closed (ep w E)) WRITE = false ->
   fst (write E fiber sched b len w) = Throw BrokenPipeException) /\
  (has (m_closed (ep w E)) READ = false ->
   has (m_otherClosed (ep w E)) WRITE = false ->
   fst (read E fiber sched b len w) = Throw BrokenPipeException) /\
  (has (m_closed (ep w E)) READ = false ->
   has (m_otherClosed (ep w E)) WRITE = true ->
   m_readBuffer (ep w E) <> [] ->
   let todo := N.min len (N.of_nat (length (m_readBuffer (ep w E)))) in
   fst (read E fiber sched b len w)
     = Val (Finished (todo, b ++ firstn (N.to_nat todo) (m_readBuffer (ep w E))))) /\
  (has (m_closed (ep w E)) READ = false ->
   has (m_otherClosed (ep w E)) WRITE = true ->
   m_readBuffer (ep w E) = [] ->
   fst (read E fiber sched b len w) = Val (Finished (0%N, b))).
Proof.
  destruct w as [[] [] t]; destruct E; simpl; intros Hgone; subst; run_op;
    finish_op.
  all: try (match goal with
            | H : (0 < N.of_nat (length ?l))%N |- _ =>
                destruct l; simpl in H; [lia | congruence]
            | H : (N.of_nat (length ?l) <= 0)%N |- _ =>
                destruct l; simpl in H; [congruence | lia]
            end).
Qed.

(** ** C4: write errors *)

(** C4: [write] on [E] throws [BadHandleException] exactly when [E] has
    closed its own Write direction (tested first); otherwise it throws
    [BrokenPipeException] when the peer is gone or has closed Read.  In
    particular, once the peer has run [close(READ)], every later write on
    [E], after any further operations on the pair, throws
    [BrokenPipeException] as long as [E] has not closed Write itself. *)
Theorem C4_write_errors (w : World) (E : side) (fiber sched : nat)
  (b : list byte) (len : N) :
  (fst (write E fiber sched b len w) = Throw BadHandleException <->
   has (m_closed (ep w E)) WRITE = true) /\
  (has (m_closed (ep w E)) WRITE = false ->
   alive (ep w (other E)) = false \/ has (m_closed (ep w (other E))) READ = true ->
   fst (write E fiber sched b len w) = Throw BrokenPipeException) /\
  (forall w0, clos_refl_trans _ step (snd (close (other E) READ w0)) w ->
   has (m_closed (ep w E)) WRITE = false ->
   fst (write E fiber sched b len w) = Throw BrokenPipeException).
Proof.
  assert (Herr : has (m_closed (ep w E)) WRITE = false ->
                 alive (ep w (other E)) = false \/
                 has (m_closed (ep w (other E))) READ = true ->
                 fst (write E fiber sched b len w) = Throw BrokenPipeException).
  { destruct w as [[] [] t]; destruct E; simpl; intros Hw Hp; run_op;
      finish_op; destruct Hp; congruence. }
  split; [|split; [exact Herr|]].
  - destruct w as [[] [] t]; destruct E; simpl; run_op; finish_op.
  - intros w0 Hsteps Hw; apply Herr; [exact Hw|right].
    eapply steps_closed_mono; [exact Hsteps|apply close_READ_has].
Qed.

(** ** C8: resumption order *)

(** C8 (as stated): A fills a pair of capacity 2, its next write of one
    byte registers in B's [m_pendingWriter] slot and yields; B's read then
    schedules that writer first and resets the slot afterwards. *)
Lemma C8_read_schedules_before_reset :
  let w1 := snd (write SA 1 7 [Byte.x01; Byte.x02] 2 (pipeStream 2)) in
  let w2 := snd (write SA 1 7 [Byte.x03] 1 w1) in
  m_pendingWriter (ep w2 SB) = Some 1 /\
  trace (snd (read SB 2 8 [] 1 w2)) = [ESchedule 7 1; EReset SB SlotWriter].
Proof. vm_compute. split; reflexivity. Qed.

(** C8 (amended): in every critical section of read, write, flush, close
    and the destructor, each resumption schedules the task held by a
    pending slot and immediately afterwards resets that slot, within the
    same critical section; the slot is empty when the section ends. *)
Theorem C8_resume_then_clear (w : World) (E : side) (fiber sched : nat)
  (b : list byte) (len : N) (type : CloseType) :
  resumes_then_clears (read E fiber sched b len) w /\
  resumes_then_clears (write_iter E fiber sched b len) w /\
  resumes_then_clears (flush_iter E fiber sched) w /\
  resumes_then_clears (close E type) w /\
  resumes_then_clears (destroy E) w.
Proof.
  unfold resumes_then_clears.
  destruct w as [[] [] t]; destruct E;
    repeat split; run_op; repeat rewrite <- app_assoc; simpl;
    first [ exists []; split; [symmetry; apply app_nil_r | simpl; auto]
          | eexists; split; [reflexivity | simpl; repeat split; auto] ];
    repeat (apply Forall_cons; [simpl; first [exact I | reflexivity] |]);
    apply Forall_nil.
Qed.

(** ** C6: one waiter per slot *)

(** C6: a read on [E] that gets as far as registering its caller (own Read
    open, peer alive, nothing buffered, peer Write not closed) while the
    slot it registers in, the peer's [m_pendingReader], is taken fails the
    [ASSERT]; likewise a write iteration that has to wait while the peer's
    [m_pendingWriter] slot is taken.  So two reads issued on one endpoint
    before either completes abort on the second. *)
Theorem C6_single_waiter (w : World) (E : side) (fiber sched : nat)
  (b : list byte) (len : N) :
  (has (m_closed (ep w E)) READ = false ->
   alive (ep w (other E)) = true ->
   m_readBuffer (ep w E) = [] ->
   has (m_otherClosed (ep w E)) WRITE = false ->
   m_pendingReader (ep w (other E)) <> None ->
   fst (read E fiber sched b len w) = AssertFailed) /\
  (has (m_closed (ep w E)) WRITE = false ->
   alive (ep w (other E)) = true ->
   has (m_closed (ep w (other E))) READ = false ->
   (m_bufferSize (ep w E) < N.of_nat (length (m_readBuffer (ep w (other E)))) + len)%N ->
   m_pendingWriter (ep w (other E)) <> None ->
   fst (write_iter E fiber sched b len w) = AssertFailed).
Proof.
  destruct w as [[] [] t]; destruct E; simpl; run_op; finish_op; try lia.
Qed.

(** ** C7: which slot a waiter uses *)

(** C7 (as stated): on a fresh pair a read on B blocks and its task lands
    in A's [m_pendingReader] slot, not in B's own. *)
Lemma C7_read_registers_on_peer :
  let w := snd (read SB 1 1 [] 3 (pipeStream unspecified)) in
  m_pendingReader (ep w SB) = None /\ m_pendingReader (ep w SA) = Some 1.
Proof. vm_compute. split; reflexivity. Qed.

(** C7 (amended): a read on [E] that yields registers its task in the
    peer's [m_pendingReader] slot, leaving [E]'s own slot as it was; a
    write iteration on [E] that completes a copy resumes the task in [E]'s
    own [m_pendingReader] slot (the peer's reader waiting for [E]'s data)
    and leaves the peer's slot as it was; a write iteration that yields
    registers in the peer's [m_pendingWriter] slot. *)
Theorem C7_registration_slots (w : World) (E : side) (fiber sched : nat)
  (b : list byte) (len : N) (n : N) (g : nat) :
  (fst (read E fiber sched b len w) = Val Yielded ->
   m_pendingReader (ep (snd (read E fiber sched b len w)) (other E)) = Some fiber /\
   m_pendingReader (ep (snd (read E fiber sched b len w)) E)
     = m_pendingReader (ep w E)) /\
  (fst (write_iter E fiber sched b len w) = Val (Finished n) ->
   m_pendingReader (ep w E) = Some g ->
   trace (snd (write_iter E fiber sched b len w))
     = trace w ++ [ESchedule (m_pendingReaderScheduler (ep w E)) g;
                   EReset E SlotReader] /\
   m_pendingReader (ep (snd (write_iter E fiber sched b len w)) E) = None /\
   m_pendingReader (ep (snd (write_iter E fiber sched b len w)) (other E))
     = m_pendingReader (ep w (other E))) /\
  (fst (write_iter E fiber sched b len w) = Val Yielded ->
   m_pendingWriter (ep (snd (write_iter E fiber sched b len w)) (other E))
     = Some fiber /\
   m_pendingWriter (ep (snd (write_iter E fiber sched b len w)) E)
     = m_pendingWriter (ep w E)).
Proof.
  destruct w as [[] [] t]; destruct E; simpl; run_op; finish_op;
    repeat match goal with H : Some _ = Some _ |- _ => injection H as H end;
    subst; simpl in *; try congruence; rewrite <- app_assoc; reflexivity.
Qed.

(** ** C9: creating a pair *)

(** C9 (as stated): [pipeStream] has no check on the capacity; a capacity
    of 0 gives a pair whose endpoints both have capacity 0. *)
Lemma C9_zero_capacity_accepted :
  m_bufferSize (ep (pipeStream 0) SA) = 0%N /\
  m_bufferSize (ep (pipeStream 0) SB) = 0%N.
Proof. split; reflexivity. Qed.

(** C9 (amended): [pipeStream] accepts any capacity; the value [~0u]
    (4294967295) becomes 65536 and every other value, 0 included, is used
    as given; both endpoints get that capacity, exist, have empty buffers,
    no close flags and no pending tasks. *)
Theorem C9_pipeStream (bufferSize : N) (E : side) :
  let p := ep (pipeStream bufferSize) E in
  m_bufferSize p = (if (bufferSize =? 4294967295)%N then 65536%N else bufferSize) /\
  alive p = true /\ m_readBuffer p = [] /\
  m_closed p = NONE /\ m_otherClosed p = NONE /\
  m_pendingReader p = None /\ m_pendingWriter p = None /\
  trace (pipeStream bufferSize) = [].
Proof. destruct E; repeat split. Qed.

(** ** C10: flush after closing Write *)

(** C10: [flush] does not look at the caller's own close flags: on an
    endpoint that has closed Write, a flush returns at once when the peer
    exists, has not closed Read and holds nothing in its inbound buffer. *)
Theorem C10_flush_ignores_own_close (w : World) (E : side) (fiber sched : nat) :
  has (m_closed (ep w E)) WRITE = true ->
  alive (ep w (other E)) = true ->
  has (m_closed (ep w (other E))) READ = false ->
  m_readBuffer (ep w (other E)) = [] ->
  flush_iter E fiber sched w = (Val (Finished tt), w).
Proof.
  intros _ Ha Hr Hb.
  destruct w as [[] [] t]; destruct E; simpl in *; subst; run_op;
    finish_op; reflexivity.
Qed.

(** ** Witnesses: the theorems above at concrete pairs *)

Lemma C1_roundtrip_witness :
  exists w1 w2,
    write SA 1 1 [Byte.x01; Byte.x02; Byte.x03] 3 (pipeStream unspecified)
      = (Val (Finished 3%N), w1) /\
    read SB 2 2 [] 3 w1
      = (Val (Finished (3%N, [Byte.x01; Byte.x02; Byte.x03])), w2).
Proof.
  exact (C1_roundtrip SA unspecified [Byte.x01; Byte.x02; Byte.x03] 1 1 2 2
           ltac:(vm_compute; reflexivity) ltac:(vm_compute; congruence)).
Defined.

Lemma C2_capacity_witness :
  let w := snd (write_iter SA 1 1 [Byte.x01; Byte.x02] 2 (pipeStream 2)) in
  reachable w /\
  m_readBuffer (ep (snd (write_iter SA 3 3 [Byte.x03] 1 w)) SB)
    = m_readBuffer (ep w SB) /\
  fst (write_iter SA 3 3 [Byte.x03] 1 w) = Val Yielded /\
  m_pendingWriter (ep (snd (write_iter SA 3 3 [Byte.x03] 1 w)) SB) = Some 3.
Proof.
  intros w.
  assert (Hr : reachable w)
    by (eapply reachable_step; [apply reachable_pipeStream | apply step_write]).
  destruct (C2_capacity w SA 3 3 [Byte.x03] 1 Hr) as [_ H].
  destruct (H ltac:(vm_compute; reflexivity)) as [Hb H2].
  destruct (H2 ltac:(vm_compute; reflexivity) ltac:(vm_compute; reflexivity)
              ltac:(vm_compute; reflexivity) ltac:(vm_compute; reflexivity))
    as [Hy Hp].
  split; [exact Hr | split; [exact Hb | split; [exact Hy | exact Hp]]].
Defined.

Lemma C3_clean_eof_witness :
  let w := snd (close SA WRITE (pipeStream unspecified)) in
  read SB 1 1 [] 4 w = (Val (Finished (0%N, [])), w) /\
  let bs := [Byte.x01; Byte.x02; Byte.x03; Byte.x04; Byte.x05] in
  let w2 := snd (close SA WRITE (snd (write SA 1 1 bs 5 (pipeStream unspecified)))) in
  fst (read SB 2 2 [] 5 w2) = Val (Finished (5%N, bs)) /\
  fst (read SB 2 2 [] 5 (snd (read SB 2 2 [] 5 w2))) = Val (Finished (0%N, [])).
Proof.
  intros w.
  destruct (C3_clean_eof w SB 1 1 [] 4
              [Byte.x01; Byte.x02; Byte.x03; Byte.x04; Byte.x05]) as [H1 H2].
  split.
  - exact (H1 ltac:(vm_compute; reflexivity) ltac:(vm_compute; reflexivity)
              ltac:(vm_compute; reflexivity)).
  - exact (H2 eq_refl).
Defined.

Lemma C4_write_errors_witness :
  let w := snd (close SA READ (pipeStream unspecified)) in
  fst (write SB 1 1 [Byte.x01] 1 w) = Throw BrokenPipeException /\
  fst (write SB 1 1 [Byte.x01] 1 (snd (close SB WRITE w)))
    = Throw BadHandleException.
Proof.
  intros w.
  destruct (C4_write_errors w SB 1 1 [Byte.x01] 1) as [_ [_ H3]].
  destruct (C4_write_errors (snd (close SB WRITE w)) SB 1 1 [Byte.x01] 1)
    as [[_ H1] _].
  split.
  - exact (H3 (pipeStream unspecified) (rt_refl _ _ _)
              ltac:(vm_compute; reflexivity)).
  - exact (H1 ltac:(vm_compute; reflexivity)).
Defined.

Lemma C5_peer_gone_witness :
  let bs := [Byte.x01; Byte.x02; Byte.x03] in
  let w := snd (destroy SA (snd (write SA 1 1 bs 3 (pipeStream unspecified)))) in
  let w' := snd (destroy SA (snd (close SA WRITE
               (snd (write SA 1 1 bs 3 (pipeStream unspecified)))))) in
  fst (write SB 2 2 bs 3 w) = Throw BrokenPipeException /\
  fst (read SB 2 2 [] 3 w) = Throw BrokenPipeException /\
  fst (read SB 2 2 [] 3 w') = Val (Finished (3%N, bs)).
Proof.
  intros bs w w'.
  destruct (C5_peer_gone w SB 2 2 bs 3 ltac:(vm_compute; reflexivity))
    as [Hw [Hr _]].
  destruct (C5_peer_gone w' SB 2 2 [] 3 ltac:(vm_compute; reflexivity))
    as [_ [_ [Hd _]]].
  split; [exact (Hw ltac:(vm_compute; reflexivity)) | split].
  - exact (Hr ltac:(vm_compute; reflexivity) ltac:(vm_compute; reflexivity)).
  - exact (Hd ltac:(vm_compute; reflexivity) ltac:(vm_compute; reflexivity)
              ltac:(vm_compute; congruence)).
Defined.

Lemma C6_single_waiter_witness :
  let w := snd (read SB 1 1 [] 3 (pipeStream unspecified)) in
  fst (read SB 2 2 [] 3 w) = AssertFailed.
Proof.
  intros w.
  destruct (C6_single_waiter w SB 2 2 [] 3) as [H _].
  exact (H ltac:(vm_compute; reflexivity) ltac:(vm_compute; reflexivity)
           ltac:(vm_compute; reflexivity) ltac:(vm_compute; reflexivity)
           ltac:(vm_compute; congruence)).
Defined.

Lemma C7_registration_slots_witness :
  let w := snd (read SB 1 5 [] 3 (pipeStream unspecified)) in
  m_pendingReader (ep w SA) = Some 1 /\
  trace (snd (write_iter SA 2 2 [Byte.x01] 1 w))
    = [ESchedule 5 1; EReset SA SlotReader].
Proof.
  intros w.
  destruct (C7_registration_slots (pipeStream unspecified) SB 1 5 [] 3 0 0)
    as [H1 _].
  destruct (C7_registration_slots w SA 2 2 [Byte.x01] 1 1 1) as [_ [H2 _]].
  split.
  - exact (proj1 (H1 ltac:(vm_compute; reflexivity))).
  - exact (proj1 (H2 ltac:(vm_compute; reflexivity)
                     ltac:(vm_compute; reflexivity))).
Defined.

Lemma C10_flush_ignores_own_close_witness :
  let w := snd (close SA WRITE (pipeStream unspecified)) in
  flush_iter SA 1 1 w = (Val (Finished tt), w).
Proof.
  intros w.
  exact (C10_flush_ignores_own_close w SA 1 1 ltac:(vm_compute; reflexivity)
           ltac:(vm_compute; reflexivity) ltac:(vm_compute; reflexivity)
           ltac:(vm_compute; reflexivity)).
Defined.

(** * Further properties of pipe.cpp *)

(** ** Invariants of every reachable world *)

(** Every endpoint's inbound buffer holds at most its capacity. *)
Definition bounded (w : World) : Prop :=
  forall X, (N.of_nat (length (m_readBuffer (ep w X))) <= m_bufferSize (ep w X))%N.

(** While both endpoints exist, each one's [m_otherClosed] equals the
    other's [m_closed]. *)
Definition mirrored (w : World) : Prop :=
  alive (epA w) = true -> alive (epB w) = true ->
  m_otherClosed (epB w) = m_closed (epA w) /\
  m_otherClosed (epA w) = m_closed (epB w).

Ltac bounded_op :=
  match goal with w : World |- _ => destruct w as [[] [] ?] end;
  match goal with E : side |- _ => destruct E end;
  unfold bounded; simpl; intros Hsz Hb X;
  pose proof (Hb SA) as HA; pose proof (Hb SB) as HB; simpl in HA, HB;
  subst; destruct X; run_op; finish_op;
  repeat rewrite length_app; repeat rewrite length_skipn;
  repeat rewrite length_firstn; lia.

Lemma read_bounded E f s b len w :
  m_bufferSize (epA w) = m_bufferSize (epB w) -> bounded w ->
  bounded (snd (read E f s b len w)).
Proof. bounded_op. Qed.

Lemma write_iter_bounded E f s b len w :
  m_bufferSize (epA w) = m_bufferSize (epB w) -> bounded w ->
  bounded (snd (write_iter E f s b len w)).
Proof. bounded_op. Qed.

Lemma flush_iter_bounded E f s w :
  m_bufferSize (epA w) = m_bufferSize (epB w) -> bounded w ->
  bounded (snd (flush_iter E f s w)).
Proof. bounded_op. Qed.

Lemma close_bounded E c w :
  m_bufferSize (epA w) = m_bufferSize (epB w) -> bounded w ->
  bounded (snd (close E c w)).
Proof. bounded_op. Qed.

Lemma destroy_bounded E w :
  m_bufferSize (epA w) = m_bufferSize (epB w) -> bounded w ->
  bounded (snd (destroy E w)).
Proof. bounded_op. Qed.

Lemma reachable_bounded (w : World) :
  reachable w -> bounded w.
Proof.
  induction 1 as [bufferSize | w w' Hr IH Hs].
  - intros X; destruct X; simpl; lia.
  - pose proof (reachable_same_bufferSize w SB Hr) as Hsz; simpl in Hsz.
    destruct Hs; auto using read_bounded, write_iter_bounded,
      flush_iter_bounded, close_bounded, destroy_bounded.
Qed.

(** X1: in every world a pair can reach, each endpoint's inbound buffer
    holds at most the pair's capacity. *)
Theorem X1_reachable_bounded (w : World) (X : side) :
  reachable w ->
  (N.of_nat (length (m_readBuffer (ep w X))) <= m_bufferSize (ep w X))%N.
Proof. intros Hr; exact (reachable_bounded w Hr X). Qed.

Ltac mirrored_op :=
  match goal with w : World |- _ => destruct w as [[] [] ?] end;
  match goal with E : side |- _ => destruct E end;
  unfold mirrored; simpl; intros Hm;
  run_op; finish_op; try (destruct Hm; auto; fail);
  intros; destruct Hm; auto; subst; auto.

Lemma read_mirrored E f s b len w :
  mirrored w -> mirrored (snd (read E f s b len w)).
Proof. mirrored_op. Qed.

Lemma write_iter_mirrored E f s b len w :
  mirrored w -> mirrored (snd (write_iter E f s b len w)).
Proof. mirrored_op. Qed.

Lemma flush_iter_mirrored E f s w :
  mirrored w -> mirrored (snd (flush_iter E f s w)).
Proof. mirrored_op. Qed.

Lemma close_mirrored E c w :
  mirrored w -> mirrored (snd (close E c w)).
Proof. mirrored_op. Qed.

Lemma destroy_mirrored E w :
  mirrored w -> mirrored (snd (destroy E w)).
Proof. mirrored_op. Qed.

(** X2: in every world a pair can reach, as long as both endpoints exist,
    each endpoint's record of its peer's close state ([m_otherClosed])
    equals the peer's own [m_closed]. *)
Theorem X2_reachable_mirrored (w : World) :
  reachable w ->
  alive (ep w SA) = true -> alive (ep w SB) = true ->
  m_otherClosed (ep w SB) = m_closed (ep w SA) /\
  m_otherClosed (ep w SA) = m_closed (ep w SB).
Proof.
  intros Hr; revert Hr; change (reachable w -> mirrored w).
  induction 1 as [bufferSize | w w' Hr IH Hs].
  - intros _ _; split; reflexivity.
  - destruct Hs; auto using read_mirrored, write_iter_mirrored,
      flush_iter_mirrored, close_mirrored, destroy_mirrored.
Qed.

(** ** The data paths of read and write *)

(** A zero-length write needs no clamping. *)
Lemma write_zero E f s b w : write E f s b 0 w = write_iter E f s b 0 w.
Proof.
  unfold write, bind, get, clamp.
  destruct (m_bufferSize (ep w E) <? 0)%N eqn:H;
    [apply N.ltb_lt in H; lia | reflexivity].
Qed.

(** X3: in every world a pair can reach, a zero-length [write] never
    suspends and never trips the assertion: it either throws or returns 0,
    leaving the peer's buffer as it was. *)
Theorem X3_zero_write_never_blocks (w : World) (E : side) (fiber sched : nat)
  (b : list byte) :
  reachable w ->
  (exists e, fst (write E fiber sched b 0 w) = Throw e) \/
  (fst (write E fiber sched b 0 w) = Val (Finished 0%N) /\
   m_readBuffer (ep (snd (write E fiber sched b 0 w)) (other E))
     = m_readBuffer (ep w (other E))).
Proof.
  intros Hr.
  pose proof (reachable_bounded w Hr (other E)) as Hb.
  pose proof (reachable_same_bufferSize w E Hr) as Hsz.
  rewrite !write_zero.
  destruct w as [[] [] t]; destruct E; simpl in Hb, Hsz |- *; subst; run_op;
    finish_op; try (left; eexists; reflexivity); try (exfalso; lia);
    right; try rewrite app_nil_r; split; reflexivity.
Qed.

(** X4: when [E] has not closed Read, its peer exists or has closed Write,
    and its inbound buffer is non-empty, [read] does not block: it returns
    [min(len, available)] bytes, the first ones of the buffer in order,
    appended to the destination, and the buffer keeps exactly the rest; the
    peer endpoint is left untouched. *)
Theorem X4_read_delivers_prefix (w : World) (E : side) (fiber sched : nat)
  (b : list byte) (len : N) :
  has (m_closed (ep w E)) READ = false ->
  alive (ep w (other E)) = true \/ has (m_otherClosed (ep w E)) WRITE = true ->
  m_readBuffer (ep w E) <> [] ->
  let buf := m_readBuffer (ep w E) in
  let todo := N.min len (N.of_nat (length buf)) in
  fst (read E fiber sched b len w)
    = Val (Finished (todo, b ++ firstn (N.to_nat todo) buf)) /\
  m_readBuffer (ep (snd (read E fiber sched b len w)) E)
    = skipn (N.to_nat todo) buf /\
  ep (snd (read E fiber sched b len w)) (other E) = ep w (other E).
Proof.
  intros Hr Hp Hne.
  destruct w as [[] [] t]; destruct E; simpl in *;
    (destruct Hp as [Hp | Hp]; [subst|]);
    run_op; finish_op.
  all: match goal with
       | H : (N.of_nat (length ?l) <= 0)%N |- _ =>
           destruct l; simpl in H; [congruence | lia]
       end.
Qed.

(** X5: [read] on [E] throws [BadHandleException] exactly when [E] has
    closed Read, and [BrokenPipeException] exactly when it has not, the
    peer is gone and the peer had not closed Write; it never throws
    otherwise. *)
Theorem X5_read_errors (w : World) (E : side) (fiber sched : nat)
  (b : list byte) (len : N) :
  (fst (read E fiber sched b len w) = Throw BadHandleException <->
   has (m_closed (ep w E)) READ = true) /\
  (fst (read E fiber sched b len w) = Throw BrokenPipeException <->
   has (m_closed (ep w E)) READ = false /\
   alive (ep w (other E)) = false /\
   has (m_otherClosed (ep w E)) WRITE = false).
Proof.
  destruct w as [[] [] t]; destruct E; simpl; run_op; finish_op.
  all: repeat match goal with H : _ /\ _ |- _ => destruct H end;
    subst; simpl in *;
    repeat match goal with
           | H : has ?c ?f = _, H' : context [has ?c ?f] |- _ => rewrite H in H'
           end;
    simpl in *; congruence.
Qed.

(** X6: when a [write] of [len] bytes on [E] completes, it reports
    [min(len, capacity)] bytes and the peer's inbound buffer is its old
    contents followed by that many leading bytes of the source; [E]'s own
    inbound buffer is left as it was. *)
Theorem X6_write_appends (w : World) (E : side) (fiber sched : nat)
  (b : list byte) (len n : N) :
  fst (write E fiber sched b len w) = Val (Finished n) ->
  n = N.min len (m_bufferSize (ep w E)) /\
  m_readBuffer (ep (snd (write E fiber sched b len w)) (other E))
    = m_readBuffer (ep w (other E)) ++ firstn (N.to_nat n) b /\
  m_readBuffer (ep (snd (write E fiber sched b len w)) E)
    = m_readBuffer (ep w E).
Proof.
  destruct w as [[] [] t]; destruct E; simpl; run_op; finish_op;
    match goal with
    | H : Val (Finished _) = Val (Finished _) |- _ => injection H as <-
    end; lia.
Qed.

(** ** close *)

(** X7: [close(type)] on [E] never fails; it merges [type] into [E]'s
    close flags, copies the result into the peer's [m_otherClosed] when the
    peer exists (and leaves a destroyed peer untouched), empties [E]'s
    reader slot exactly when the merged flags include Write (and its writer
    slot exactly when they include Read), leaving the slot as it was
    otherwise, and moves no bytes. *)
Theorem X7_close_effect (w : World) (E : side) (type : CloseType) :
  let w' := snd (close E type w) in
  let c := Z.lor (m_closed (ep w E)) type in
  fst (close E type w) = Val tt /\
  m_closed (ep w' E) = c /\
  (alive (ep w (other E)) = true ->
   m_otherClosed (ep w' (other E)) = c /\
   m_closed (ep w' (other E)) = m_closed (ep w (other E))) /\
  (alive (ep w (other E)) = false -> ep w' (other E) = ep w (other E)) /\
  m_pendingReader (ep w' E)
    = (if has c WRITE then None else m_pendingReader (ep w E)) /\
  m_pendingWriter (ep w' E)
    = (if has c READ then None else m_pendingWriter (ep w E)) /\
  m_readBuffer (ep w' E) = m_readBuffer (ep w E) /\
  m_readBuffer (ep w' (other E)) = m_readBuffer (ep w (other E)).
Proof.
  destruct w as [[] [] t]; destruct E; simpl; run_op; finish_op.
Qed.

Lemma close_facts (w : World) (E : side) (type : CloseType) :
  let w' := snd (close E type w) in
  m_closed (ep w' E) = Z.lor (m_closed (ep w E)) type /\
  (alive (ep w' (other E)) = true ->
   m_otherClosed (ep w' (other E)) = m_closed (ep w' E)) /\
  (has (m_closed (ep w' E)) WRITE = true -> m_pendingReader (ep w' E) = None) /\
  (has (m_closed (ep w' E)) READ = true -> m_pendingWriter (ep w' E) = None).
Proof. destruct w as [[] [] t]; destruct E; simpl; run_op; finish_op. Qed.

Lemma close_noop (w : World) (E : side) (type : CloseType) :
  Z.lor (m_closed (ep w E)) type = m_closed (ep w E) ->
  (alive (ep w (other E)) = true ->
   m_otherClosed (ep w (other E)) = m_closed (ep w E)) ->
  (has (m_closed (ep w E)) WRITE = true -> m_pendingReader (ep w E) = None) ->
  (has (m_closed (ep w E)) READ = true -> m_pendingWriter (ep w E) = None) ->
  close E type w = (Val tt, w).
Proof.
  destruct w as [[] [] t]; destruct E; simpl; intros Hl Ho Hr Hw;
    run_op; rewrite ?Hl in *;
    repeat match goal with
           | H : ?a = true -> _, H' : ?a = true |- _ => specialize (H H')
           end;
    finish_op; subst;
    try (rewrite Ho by reflexivity);
    unfold set_closed, set_otherClosed; simpl; reflexivity.
Qed.

(** X8: closing the same directions twice has no further effect: the
    second [close] leaves the world, trace included, exactly as the first
    one left it. *)
Theorem X8_close_idempotent (w : World) (E : side) (type : CloseType) :
  close E type (snd (close E type w)) = (Val tt, snd (close E type w)).
Proof.
  destruct (close_facts w E type) as [Hc [Ho [Hr Hw]]].
  apply close_noop; auto.
  rewrite Hc, <- Z.lor_assoc, Z.lor_diag; reflexivity.
Qed.

(** ** The destructor *)

(** X9: [~PipeStream] on [E] never throws.  Its assertion fails exactly
    when the peer still exists and holds a pending reader or writer;
    otherwise [E] is marked destroyed, the task in [E]'s reader slot and
    then the one in its writer slot are scheduled and their slots reset,
    [E]'s buffer is left as it was and the peer is not touched. *)
Theorem X9_destroy_effect (w : World) (E : side) :
  let me := ep w E in
  let o := ep w (other E) in
  let w' := snd (destroy E w) in
  (fst (destroy E w) = AssertFailed <->
   alive o = true /\ (m_pendingReader o <> None \/ m_pendingWriter o <> None)) /\
  (fst (destroy E w) <> AssertFailed ->
   fst (destroy E w) = Val tt /\
   alive (ep w' E) = false /\
   m_pendingReader (ep w' E) = None /\ m_pendingWriter (ep w' E) = None /\
   m_readBuffer (ep w' E) = m_readBuffer me /\
   ep w' (other E) = o /\
   trace w' = trace w ++
     match m_pendingReader me with
     | Some f => [ESchedule (m_pendingReaderScheduler me) f; EReset E SlotReader]
     | None => []
     end ++
     match m_pendingWriter me with
     | Some f => [ESchedule (m_pendingWriterScheduler me) f; EReset E SlotWriter]
     | None => []
     end).
Proof.
  destruct w as [[] [] t]; destruct E; simpl; run_op; finish_op;
    try (rewrite <- !app_assoc; reflexivity);
    try (rewrite app_nil_r; reflexivity);
    try (left; discriminate); try (right; discriminate);
    repeat match goal with H : _ /\ _ |- _ => destruct H end;
    repeat match goal with H : _ \/ _ |- _ => destruct H end;
    congruence.
Qed.

(** ** Suspension and resumption *)

(** What a suspended critical section knows and does: the tests it passed,
    and the single slot of the peer it filled. *)
Lemma read_yielded E f s b len w :
  fst (read E f s b len w) = Val Yielded ->
  has (m_closed (ep w E)) READ = false /\
  alive (ep w (other E)) = true /\
  has (m_otherClosed (ep w E)) WRITE = false /\
  m_readBuffer (ep w E) = [] /\
  m_pendingReader (ep w (other E)) = None /\
  snd (read E f s b len w)
    = set_ep w (other E) (set_pendingReader (ep w (other E)) (Some f) s).
Proof.
  destruct w as [[] [] t]; destruct E; simpl; run_op; finish_op;
    match goal with
    | |- ?x = true => destruct x; simpl in *; congruence
    | |- ?l = [] => destruct l; simpl in *; [reflexivity | lia]
    end.
Qed.

Lemma write_iter_yielded E f s b len w :
  fst (write_iter E f s b len w) = Val Yielded ->
  has (m_closed (ep w E)) WRITE = false /\
  alive (ep w (other E)) = true /\
  has (m_closed (ep w (other E))) READ = false /\
  (m_bufferSize (ep w E) < N.of_nat (length (m_readBuffer (ep w (other E)))) + len)%N /\
  m_pendingWriter (ep w (other E)) = None /\
  snd (write_iter E f s b len w)
    = set_ep w (other E) (set_pendingWriter (ep w (other E)) (Some f) s).
Proof. destruct w as [[] [] t]; destruct E; simpl; run_op; finish_op. Qed.

Lemma flush_iter_yielded E f s w :
  fst (flush_iter E f s w) = Val Yielded ->
  alive (ep w (other E)) = true /\
  has (m_closed (ep w (other E))) READ = false /\
  m_readBuffer (ep w (other E)) <> [] /\
  m_pendingWriter (ep w (other E)) = None /\
  snd (flush_iter E f s w)
    = set_ep w (other E) (set_pendingWriter (ep w (other E)) (Some f) s).
Proof.
  destruct w as [[] [] t]; destruct E; simpl; run_op; finish_op;
    intros ->; simpl in *; lia.
Qed.

(** X10: a [read] on [E] that suspends on an empty buffer is woken when the
    peer is destroyed: the destructor first schedules exactly the suspended
    task and resets the slot that held it, and the retried [read] throws
    [BrokenPipeException]. *)
Theorem X10_destroy_wakes_reader (w : World) (E : side) (fiber sched : nat)
  (b : list byte) (len : N) :
  fst (read E fiber sched b len w) = Val Yielded ->
  fst (destroy (other E) (snd (read E fiber sched b len w))) = Val tt ->
  (exists t,
     trace (snd (destroy (other E) (snd (read E fiber sched b len w))))
       = trace w ++ ESchedule sched fiber :: EReset (other E) SlotReader :: t) /\
  fst (read E fiber sched b len
         (snd (destroy (other E) (snd (read E fiber sched b len w)))))
    = Throw BrokenPipeException.
Proof.
  intros H1; destruct (read_yielded E fiber sched b len w H1)
    as (Hc & Ha & Ho & Hb & Hp & ->).
  destruct w as [[] [] t]; destruct E; simpl in *; subst; run_op; finish_op;
    eexists; rewrite <- !app_assoc; reflexivity.
Qed.

(** X11: a [read] on [E] that suspends on an empty buffer is woken when the
    existing peer closes Write: that [close] first schedules exactly the
    suspended task and resets the slot that held it, and the retried [read]
    returns 0 bytes, leaving the destination as it was. *)
Theorem X11_close_write_wakes_reader (w : World) (E : side)
  (fiber sched : nat) (b : list byte) (len : N) :
  alive (ep w E) = true ->
  fst (read E fiber sched b len w) = Val Yielded ->
  (exists t,
     trace (snd (close (other E) WRITE (snd (read E fiber sched b len w))))
       = trace w ++ ESchedule sched fiber :: EReset (other E) SlotReader :: t) /\
  fst (read E fiber sched b len
         (snd (close (other E) WRITE (snd (read E fiber sched b len w)))))
    = Val (Finished (0%N, b)).
Proof.
  intros Hal H1; destruct (read_yielded E fiber sched b len w H1)
    as (Hc & Ha & Ho & Hb & Hp & ->).
  pose proof (has_lor_r (m_closed (ep w (other E))) WRITE WRITE eq_refl) as Hw.
  destruct w as [[] [] t]; destruct E; simpl in *; subst; run_op; finish_op;
    eexists; rewrite <- !app_assoc; reflexivity.
Qed.

(** X12: a [flush] on [E] that suspends because the peer still holds
    unread bytes completes once the peer reads them all: a [read] on the
    peer of at least that many bytes returns the whole buffer, schedules
    exactly the suspended flush and resets the slot that held it, and the
    retried [flush] returns. *)
Theorem X12_flush_waits_for_drain (w : World) (E : side)
  (fiber sched fiber' sched' : nat) (rb : list byte) (rlen : N) :
  alive (ep w E) = true ->
  fst (flush_iter E fiber sched w) = Val Yielded ->
  (N.of_nat (length (m_readBuffer (ep w (other E)))) <= rlen)%N ->
  let w1 := snd (flush_iter E fiber sched w) in
  let w2 := snd (read (other E) fiber' sched' rb rlen w1) in
  fst (read (other E) fiber' sched' rb rlen w1)
    = Val (Finished (N.of_nat (length (m_readBuffer (ep w (other E)))),
                     rb ++ m_readBuffer (ep w (other E)))) /\
  trace w2 = trace w ++ [ESchedule sched fiber; EReset (other E) SlotWriter] /\
  fst (flush_iter E fiber sched w2) = Val (Finished tt).
Proof.
  intros Hal H1 Hlen; destruct (flush_iter_yielded E fiber sched w H1)
    as (Ha & Hc & Hne & Hp & ->).
  destruct w as [[] [] t]; destruct E; simpl in *; subst; run_op;
    rewrite ?N.min_r in * by exact Hlen;
    rewrite ?Nat2N.id, ?firstn_all, ?skipn_all in *; finish_op;
    try (rewrite <- !app_assoc; reflexivity);
    match goal with
    | H : ?l <> [] |- _ => destruct l; simpl in *; [congruence | lia]
    end.
Qed.

(** X13: a write iteration on [E] that suspends because the peer's buffer
    has no room completes once the peer has read enough: when a [read] of
    [rlen] bytes on the peer takes [todo = min(rlen, available)] bytes and
    the rest plus [len] fits the capacity, that read schedules exactly the
    suspended writer and resets the slot that held it, and the retried
    iteration writes all [len] bytes after the unread rest. *)
Theorem X13_write_backpressure (w : World) (E : side)
  (fiber sched fiber' sched' : nat) (b rb : list byte) (len rlen : N) :
  alive (ep w E) = true ->
  fst (write_iter E fiber sched b len w) = Val Yielded ->
  let buf := m_readBuffer (ep w (other E)) in
  let todo := N.min rlen (N.of_nat (length buf)) in
  (N.of_nat (length buf) - todo + len <= m_bufferSize (ep w E))%N ->
  let w1 := snd (write_iter E fiber sched b len w) in
  let w2 := snd (read (other E) fiber' sched' rb rlen w1) in
  fst (read (other E) fiber' sched' rb rlen w1)
    = Val (Finished (todo, rb ++ firstn (N.to_nat todo) buf)) /\
  trace w2 = trace w ++ [ESchedule sched fiber; EReset (other E) SlotWriter] /\
  fst (write_iter E fiber sched b len w2) = Val (Finished len) /\
  m_readBuffer (ep (snd (write_iter E fiber sched b len w2)) (other E))
    = skipn (N.to_nat todo) buf ++ firstn (N.to_nat len) b.
Proof.
  intros Hal H1; destruct (write_iter_yielded E fiber sched b len w H1)
    as (Hc & Ha & Hr & Hfull & Hp & ->); intros buf todo Hfit.
  subst buf todo.
  destruct w as [[] [] t]; destruct E; simpl in *; subst; run_op; finish_op;
    try (rewrite <- !app_assoc; reflexivity);
    rewrite ?length_skipn in *; lia.
Qed.

(** ** No reader sleeps on available data *)

(** A task in [X]'s reader slot waits for bytes [X] writes into the other
    endpoint's buffer: that buffer is empty while it waits. *)
Definition readers_wait_on_empty (w : World) : Prop :=
  forall X, m_pendingReader (ep w X) <> None -> m_readBuffer (ep w (other X)) = [].

Ltac waits_op :=
  match goal with w : World |- _ => destruct w as [[] [] ?] end;
  match goal with E : side |- _ => destruct E end;
  unfold readers_wait_on_empty; simpl; intros Hi;
  pose proof (Hi SA) as HA; pose proof (Hi SB) as HB; simpl in HA, HB; clear Hi;
  intros X; destruct X; simpl; run_op; finish_op;
  repeat match goal with
         | Hx : ?p <> None -> _ = [] |- _ =>
             let Hy := fresh in
             assert (Hy : p <> None) by congruence; specialize (Hx Hy); clear Hy
         end;
  subst; simpl in *; try first [reflexivity | lia | congruence];
  match goal with |- ?l = [] => destruct l; simpl in *; [reflexivity | lia] end.

Lemma read_waits E f s b len w :
  readers_wait_on_empty w -> readers_wait_on_empty (snd (read E f s b len w)).
Proof. waits_op. Qed.

Lemma write_iter_waits E f s b len w :
  readers_wait_on_empty w -> readers_wait_on_empty (snd (write_iter E f s b len w)).
Proof. waits_op. Qed.

Lemma flush_iter_waits E f s w :
  readers_wait_on_empty w -> readers_wait_on_empty (snd (flush_iter E f s w)).
Proof. waits_op. Qed.

Lemma close_waits E c w :
  readers_wait_on_empty w -> readers_wait_on_empty (snd (close E c w)).
Proof. waits_op. Qed.

Lemma destroy_waits E w :
  readers_wait_on_empty w -> readers_wait_on_empty (snd (destroy E w)).
Proof. waits_op. Qed.

(** X14: in every world a pair can reach, a task waiting in an endpoint's
    reader slot waits on an empty buffer: no reader stays suspended while
    bytes it could read are buffered. *)
Theorem X14_reader_waits_on_empty (w : World) (X : side) :
  reachable w ->
  m_pendingReader (ep w X) <> None -> m_readBuffer (ep w (other X)) = [].
Proof.
  intros Hr; revert X; change (readers_wait_on_empty w).
  induction Hr as [bufferSize | w w' Hr IH Hs].
  - intros X; destruct X; simpl; congruence.
  - destruct Hs; auto using read_waits, write_iter_waits, flush_iter_waits,
      close_waits, destroy_waits.
Qed.

(** ** Nothing waits on a destroyed endpoint *)

(** [X] is destroyed and holds no pending task. *)
Definition dead_unwaited (X : side) (w : World) : Prop :=
  alive (ep w X) = false /\
  m_pendingReader (ep w X) = None /\ m_pendingWriter (ep w X) = None.

Lemma step_dead_unwaited (X : side) (w w' : World) :
  step w w' -> dead_unwaited X w -> dead_unwaited X w'.
Proof.
  intros Hs; destruct Hs;
    match goal with w : World |- _ => destruct w as [[] [] ?] end;
    destruct E, X; unfold dead_unwaited; simpl in *; intros (Ha & Hr & Hw);
    subst; run_op; finish_op.
Qed.

Lemma steps_dead_unwaited (X : side) (w w' : World) :
  clos_refl_trans World step w w' -> dead_unwaited X w -> dead_unwaited X w'.
Proof. induction 1; eauto using step_dead_unwaited. Qed.

(** X15: once the destructor of [E] has completed, no task is ever
    registered on [E] again: in every world reached afterwards, by any
    operations on either endpoint, [E]'s reader and writer slots are
    empty. *)
Theorem X15_destroyed_stays_unwaited (w w' : World) (E : side) :
  fst (destroy E w) = Val tt ->
  clos_refl_trans World step (snd (destroy E w)) w' ->
  alive (ep w' E) = false /\
  m_pendingReader (ep w' E) = None /\ m_pendingWriter (ep w' E) = None.
Proof.
  intros Hd Hrt; apply (steps_dead_unwaited E _ _ Hrt); revert Hd.
  destruct w as [[] [] t]; destruct E; unfold dead_unwaited; simpl;
    run_op; finish_op.
Qed.

(** ** flush and write *)

(** X16: [flush] on [E] only ever throws [BrokenPipeException], and it
    does so exactly when the peer is gone or has closed Read; whatever its
    outcome it moves no bytes: both buffers are left as they were. *)
Theorem X16_flush_errors (w : World) (E : side) (fiber sched : nat) :
  (forall e, fst (flush_iter E fiber sched w) = Throw e -> e = BrokenPipeException) /\
  (fst (flush_iter E fiber sched w) = Throw BrokenPipeException <->
   alive (ep w (other E)) = false \/ has (m_closed (ep w (other E))) READ = true) /\
  (forall X, m_readBuffer (ep (snd (flush_iter E fiber sched w)) X)
             = m_readBuffer (ep w X)).
Proof.
  destruct w as [[] [] t]; destruct E; simpl; run_op; finish_op;
    try (intros []; reflexivity);
    try (destruct X; reflexivity);
    repeat match goal with H : _ \/ _ |- _ => destruct H end; congruence.
Qed.

(** X17: a [write] on [E] into an empty peer buffer never suspends,
    whatever its length: unless [E] has closed Write, or the peer is gone
    or has closed Read, it completes with [min(len, capacity)] bytes and
    the peer's buffer then holds exactly those leading bytes of the
    source. *)
Theorem X17_write_to_empty_completes (w : World) (E : side)
  (fiber sched : nat) (b : list byte) (len : N) :
  has (m_closed (ep w E)) WRITE = false ->
  alive (ep w (other E)) = true ->
  has (m_closed (ep w (other E))) READ = false ->
  m_readBuffer (ep w (other E)) = [] ->
  let n := N.min len (m_bufferSize (ep w E)) in
  fst (write E fiber sched b len w) = Val (Finished n) /\
  m_readBuffer (ep (snd (write E fiber sched b len w)) (other E))
    = firstn (N.to_nat n) b.
Proof.
  intros Hw Ha Hr Hb.
  destruct w as [[] [] t]; destruct E; simpl in *; subst; run_op; finish_op;
    repeat match goal with
           | H : context [if ?c then _ else _] |- _ => destruct c eqn:?
           end;
    finish_op; first [exfalso; lia | repeat f_equal; lia].
Qed.

(** X18: a write iteration on [E] that suspends for lack of room is woken
    when the peer closes Read: that [close] first schedules exactly the
    suspended writer and resets the slot that held it, and the retried
    iteration throws [BrokenPipeException]. *)
Theorem X18_close_read_wakes_writer (w : World) (E : side)
  (fiber sched : nat) (b : list byte) (len : N) :
  fst (write_iter E fiber sched b len w) = Val Yielded ->
  (exists t,
     trace (snd (close (other E) READ (snd (write_iter E fiber sched b len w))))
       = trace w ++ t ++ [ESchedule sched fiber; EReset (other E) SlotWriter]) /\
  fst (write_iter E fiber sched b len
         (snd (close (other E) READ (snd (write_iter E fiber sched b len w)))))
    = Throw BrokenPipeException.
Proof.
  intros H1; destruct (write_iter_yielded E fiber sched b len w H1)
    as (Hc & Ha & Hr & Hfull & Hp & ->).
  pose proof (has_lor_r (m_closed (ep w (other E))) READ READ eq_refl) as Hrd.
  destruct w as [[] [] t]; destruct E; simpl in *; subst; run_op; finish_op;
    first [ exists []; rewrite <- !app_assoc; reflexivity
          | match goal with
            | |- exists _, (((_ ++ [?a]) ++ [?b]) ++ _) ++ _ = _ =>
                exists [a; b]; rewrite <- !app_assoc; reflexivity
            end ].
Qed.

(** ** Witnesses: the further properties at concrete pairs *)

Lemma X1_reachable_bounded_witness :
  let w := snd (write_iter SA 1 1 [Byte.x01; Byte.x02] 2 (pipeStream 2)) in
  reachable w /\
  (N.of_nat (length (m_readBuffer (ep w SB))) <= m_bufferSize (ep w SB))%N.
Proof.
  intros w.
  assert (Hr : reachable w)
    by (eapply reachable_step; [apply reachable_pipeStream | apply step_write]).
  exact (conj Hr (X1_reachable_bounded w SB Hr)).
Defined.

Lemma X2_reachable_mirrored_witness :
  let w := snd (close SA WRITE (pipeStream unspecified)) in
  m_otherClosed (ep w SB) = m_closed (ep w SA) /\
  m_otherClosed (ep w SA) = m_closed (ep w SB).
Proof.
  intros w.
  exact (X2_reachable_mirrored w
           (reachable_step _ _ (reachable_pipeStream unspecified)
              (step_close SA WRITE _))
           ltac:(vm_compute; reflexivity) ltac:(vm_compute; reflexivity)).
Defined.

Lemma X3_zero_write_never_blocks_witness :
  let w := snd (read SA 1 1 [] 3 (pipeStream 2)) in
  (exists e, fst (write SB 2 2 [Byte.x01] 0 w) = Throw e) \/
  (fst (write SB 2 2 [Byte.x01] 0 w) = Val (Finished 0%N) /\
   m_readBuffer (ep (snd (write SB 2 2 [Byte.x01] 0 w)) SA)
     = m_readBuffer (ep w SA)).
Proof.
  intros w.
  exact (X3_zero_write_never_blocks w SB 2 2 [Byte.x01]
           (reachable_step _ _ (reachable_pipeStream 2)
              (step_read SA 1 1 [] 3 _))).
Defined.

Lemma X4_read_delivers_prefix_witness :
  let w := snd (write SA 1 1 [Byte.x01; Byte.x02; Byte.x03] 3
                  (pipeStream unspecified)) in
  fst (read SB 2 2 [] 2 w) = Val (Finished (2%N, [Byte.x01; Byte.x02])) /\
  m_readBuffer (ep (snd (read SB 2 2 [] 2 w)) SB) = [Byte.x03].
Proof.
  intros w.
  destruct (X4_read_delivers_prefix w SB 2 2 [] 2
              ltac:(vm_compute; reflexivity)
              ltac:(left; vm_compute; reflexivity)
              ltac:(vm_compute; congruence)) as [H1 [H2 _]].
  split; [exact H1 | exact H2].
Defined.

Lemma X6_write_appends_witness :
  let w := pipeStream 2 in
  m_readBuffer (ep (snd (write SA 1 1 [Byte.x01; Byte.x02; Byte.x03] 5 w)) SB)
    = [Byte.x01; Byte.x02].
Proof.
  intros w.
  destruct (X6_write_appends w SA 1 1 [Byte.x01; Byte.x02; Byte.x03] 5 2
              ltac:(vm_compute; reflexivity)) as [_ [H _]].
  exact H.
Defined.

Lemma X10_destroy_wakes_reader_witness :
  let w1 := snd (read SA 1 7 [] 3 (pipeStream unspecified)) in
  (exists t, trace (snd (destroy SB w1))
               = [ESchedule 7 1; EReset SB SlotReader] ++ t) /\
  fst (read SA 1 7 [] 3 (snd (destroy SB w1))) = Throw BrokenPipeException.
Proof.
  intros w1.
  exact (X10_destroy_wakes_reader (pipeStream unspecified) SA 1 7 [] 3
           ltac:(vm_compute; reflexivity) ltac:(vm_compute; reflexivity)).
Defined.

Lemma X11_close_write_wakes_reader_witness :
  let w1 := snd (read SA 1 7 [] 3 (pipeStream unspecified)) in
  (exists t, trace (snd (close SB WRITE w1))
               = [ESchedule 7 1; EReset SB SlotReader] ++ t) /\
  fst (read SA 1 7 [] 3 (snd (close SB WRITE w1))) = Val (Finished (0%N, [])).
Proof.
  intros w1.
  exact (X11_close_write_wakes_reader (pipeStream unspecified) SA 1 7 [] 3
           ltac:(vm_compute; reflexivity) ltac:(vm_compute; reflexivity)).
Defined.

Lemma X12_flush_waits_for_drain_witness :
  let w := snd (write SA 1 1 [Byte.x01; Byte.x02] 2 (pipeStream unspecified)) in
  let w2 := snd (read SB 4 4 [] 5 (snd (flush_iter SA 3 3 w))) in
  fst (read SB 4 4 [] 5 (snd (flush_iter SA 3 3 w)))
    = Val (Finished (2%N, [Byte.x01; Byte.x02])) /\
  trace w2 = trace w ++ [ESchedule 3 3; EReset SB SlotWriter] /\
  fst (flush_iter SA 3 3 w2) = Val (Finished tt).
Proof.
  intros w w2.
  exact (X12_flush_waits_for_drain w SA 3 3 4 4 [] 5
           ltac:(vm_compute; reflexivity) ltac:(vm_compute; reflexivity)
           ltac:(vm_compute; congruence)).
Defined.

Lemma X13_write_backpressure_witness :
  let w := snd (write SA 1 1 [Byte.x01; Byte.x02] 2 (pipeStream 2)) in
  let w2 := snd (read SB 4 4 [] 1 (snd (write_iter SA 3 3 [Byte.x03] 1 w))) in
  fst (write_iter SA 3 3 [Byte.x03] 1 w2) = Val (Finished 1%N) /\
  m_readBuffer (ep (snd (write_iter SA 3 3 [Byte.x03] 1 w2)) SB)
    = [Byte.x02; Byte.x03].
Proof.
  intros w w2.
  destruct (X13_write_backpressure w SA 3 3 4 4 [Byte.x03] [] 1 1
              ltac:(vm_compute; reflexivity) ltac:(vm_compute; reflexivity)
              ltac:(vm_compute; congruence)) as [_ [_ [H1 H2]]].
  split; [exact H1 | exact H2].
Defined.

Lemma X14_reader_waits_on_empty_witness :
  let w := snd (read SB 1 1 [] 3 (pipeStream unspecified)) in
  m_pendingReader (ep w SA) = Some 1 /\ m_readBuffer (ep w SB) = [].
Proof.
  intros w.
  split; [vm_compute; reflexivity |].
  exact (X14_reader_waits_on_empty w SA
           (reachable_step _ _ (reachable_pipeStream unspecified)
              (step_read SB 1 1 [] 3 _))
           ltac:(vm_compute; congruence)).
Defined.

Lemma X15_destroyed_stays_unwaited_witness :
  let w1 := snd (destroy SA (pipeStream unspecified)) in
  let w' := snd (read SB 1 1 [] 3 w1) in
  alive (ep w' SA) = false /\
  m_pendingReader (ep w' SA) = None /\ m_pendingWriter (ep w' SA) = None.
Proof.
  intros w1 w'.
  exact (X15_destroyed_stays_unwaited (pipeStream unspecified) w' SA
           ltac:(vm_compute; reflexivity)
           (rt_step _ _ _ _ (step_read SB 1 1 [] 3 _))).
Defined.

Lemma X17_write_to_empty_completes_witness :
  fst (write SA 1 1 [Byte.x01; Byte.x02; Byte.x03] 5 (pipeStream 2))
    = Val (Finished 2%N) /\
  m_readBuffer (ep (snd (write SA 1 1 [Byte.x01; Byte.x02; Byte.x03] 5
                           (pipeStream 2))) SB)
    = [Byte.x01; Byte.x02].
Proof.
  exact (X17_write_to_empty_completes (pipeStream 2) SA 1 1
           [Byte.x01; Byte.x02; Byte.x03] 5
           ltac:(vm_compute; reflexivity) ltac:(vm_compute; reflexivity)
           ltac:(vm_compute; reflexivity) ltac:(vm_compute; reflexivity)).
Defined.

Lemma X18_close_read_wakes_writer_witness :
  let w := snd (write SA 1 1 [Byte.x01; Byte.x02] 2 (pipeStream 2)) in
  let w2 := snd (close SB READ (snd (write_iter SA 3 3 [Byte.x03] 1 w))) in
  fst (write_iter SA 3 3 [Byte.x03] 1 w2) = Throw BrokenPipeException.
Proof.
  intros w w2.
  exact (proj2 (X18_close_read_wakes_writer w SA 3 3 [Byte.x03] 1
                  ltac:(vm_compute; reflexivity))).
Defined.
